(** * RSA key setup of the Oberon crypto library (occ_rsa_key.h)

    The header declares the constant [PUB_EXP], six key structures and the
    six key setup entry points.  The structures and prototypes are embedded
    as they are declared; the bodies of the entry points are not part of the
    header and are modelled from the specification. *)

From Stdlib Require Import ZArith List Lia Bool String.
From Stdlib Require Import Strings.Byte.
Import ListNotations.
Import Stdlib.Init.Byte.

Local Open Scope Z_scope.

(** ** Declarations of the header *)

(** [#define PUB_EXP 65537  // 2^16 + 1] *)
Definition PUB_EXP : Z := 65537.

(** A member [uint32_t name[count]] of a key structure. *)
Record member := Member { m_name : string; m_words : nat }.

(** A [typedef struct { ... }] is the list of its members, in order. *)
Definition struct_decl := list member.

Definition occ_rsa1024_pub_key_decl : struct_decl :=
  [ Member "n" 32 ].

Definition occ_rsa1024_key_decl : struct_decl :=
  [ Member "n" 32; Member "d" 32 ].

Definition occ_rsa1024_crt_key_decl : struct_decl :=
  [ Member "n" 32;
    Member "p" 16; Member "q" 16;
    Member "dp" 16; Member "dq" 16;
    Member "qinv" 16 ].

Definition occ_rsa2048_pub_key_decl : struct_decl :=
  [ Member "n" 64 ].

Definition occ_rsa2048_key_decl : struct_decl :=
  [ Member "n" 64; Member "d" 64 ].

Definition occ_rsa2048_crt_key_decl : struct_decl :=
  [ Member "n" 64;
    Member "p" 32; Member "q" 32;
    Member "dp" 32; Member "dq" 32;
    Member "qinv" 32 ].

(** The parameters of a prototype: the output structure [T *k], a buffer
    [const uint8_t *name] and its length [int name]. *)
Inductive param :=
| POut (name : string) (ty : struct_decl)
| PBytes (name : string)
| PLen (name : string).

Definition prototype := list param.

Definition occ_rsa1024_init_pub_key_proto : prototype :=
  [ POut "k" occ_rsa1024_pub_key_decl; PBytes "n"; PLen "nlen" ].

Definition occ_rsa1024_init_key_proto : prototype :=
  [ POut "k" occ_rsa1024_key_decl;
    PBytes "n"; PLen "nlen"; PBytes "d"; PLen "dlen" ].

Definition occ_rsa1024_init_crt_key_proto : prototype :=
  [ POut "k" occ_rsa1024_crt_key_decl;
    PBytes "p"; PLen "plen"; PBytes "q"; PLen "qlen";
    PBytes "dp"; PLen "dplen"; PBytes "dq"; PLen "dqlen";
    PBytes "qinv"; PLen "qilen" ].

Definition occ_rsa2048_init_pub_key_proto : prototype :=
  [ POut "k" occ_rsa2048_pub_key_decl; PBytes "n"; PLen "nlen" ].

Definition occ_rsa2048_init_key_proto : prototype :=
  [ POut "k" occ_rsa2048_key_decl;
    PBytes "n"; PLen "nlen"; PBytes "d"; PLen "dlen" ].

Definition occ_rsa2048_init_crt_key_proto : prototype :=
  [ POut "k" occ_rsa2048_crt_key_decl;
    PBytes "p"; PLen "plen"; PBytes "q"; PLen "qlen";
    PBytes "dp"; PLen "dplen"; PBytes "dq"; PLen "dqlen";
    PBytes "qinv"; PLen "qilen" ].

(** Names of the members of a structure and of the byte buffers a prototype
    receives. *)
Definition member_names (d : struct_decl) : list string := map m_name d.

Definition buffer_names (f : prototype) : list string :=
  flat_map (fun a => match a with PBytes x => [x] | _ => [] end) f.

Definition total_words (d : struct_decl) : nat :=
  fold_right (fun m acc => (m_words m + acc)%nat) 0%nat d.

(** ** The two key sizes *)

Inductive key_size := RSA1024 | RSA2048.

Definition key_bits (s : key_size) : Z :=
  match s with RSA1024 => 1024 | RSA2048 => 2048 end.

Definition half_bits (s : key_size) : Z :=
  match s with RSA1024 => 512 | RSA2048 => 1024 end.

Definition key_words (s : key_size) : nat :=
  match s with RSA1024 => 32%nat | RSA2048 => 64%nat end.

Definition half_words (s : key_size) : nat :=
  match s with RSA1024 => 16%nat | RSA2048 => 32%nat end.

(** ** Key structures as values

    A [uint32_t x[N]] is a list of words (word 0 first), each word a [Z] in
    [0, 2^32).  The size index keeps the 1024 and 2048 bit structures apart
    as types. *)

Record occ_rsa_pub_key (s : key_size) := PubKey {
  pub_n : list Z
}.

Record occ_rsa_key (s : key_size) := Key {
  key_n : list Z;
  key_d : list Z
}.

Record occ_rsa_crt_key (s : key_size) := CrtKey {
  crt_n : list Z;
  crt_p : list Z;
  crt_q : list Z;
  crt_dp : list Z;
  crt_dq : list Z;
  crt_qinv : list Z
}.

Arguments PubKey {s} _.
Arguments pub_n {s} _.
Arguments Key {s} _ _.
Arguments key_n {s} _.
Arguments key_d {s} _.
Arguments CrtKey {s} _ _ _ _ _ _.
Arguments crt_n {s} _.
Arguments crt_p {s} _.
Arguments crt_q {s} _.
Arguments crt_dp {s} _.
Arguments crt_dq {s} _.
Arguments crt_qinv {s} _.

Definition occ_rsa1024_pub_key := occ_rsa_pub_key RSA1024.
Definition occ_rsa1024_key := occ_rsa_key RSA1024.
Definition occ_rsa1024_crt_key := occ_rsa_crt_key RSA1024.
Definition occ_rsa2048_pub_key := occ_rsa_pub_key RSA2048.
Definition occ_rsa2048_key := occ_rsa_key RSA2048.
Definition occ_rsa2048_crt_key := occ_rsa_crt_key RSA2048.

(** The declaration each structure value follows. *)
Definition pub_key_decl (s : key_size) : struct_decl :=
  match s with
  | RSA1024 => occ_rsa1024_pub_key_decl
  | RSA2048 => occ_rsa2048_pub_key_decl
  end.

Definition key_decl (s : key_size) : struct_decl :=
  match s with
  | RSA1024 => occ_rsa1024_key_decl
  | RSA2048 => occ_rsa2048_key_decl
  end.

Definition crt_key_decl (s : key_size) : struct_decl :=
  match s with
  | RSA1024 => occ_rsa1024_crt_key_decl
  | RSA2048 => occ_rsa2048_crt_key_decl
  end.

(** The members of a structure value, in declaration order. *)
Definition pub_key_members {s} (k : occ_rsa_pub_key s) : list (string * list Z) :=
  [ ("n"%string, pub_n k) ].

Definition key_members {s} (k : occ_rsa_key s) : list (string * list Z) :=
  [ ("n"%string, key_n k); ("d"%string, key_d k) ].

Definition crt_key_members {s} (k : occ_rsa_crt_key s) : list (string * list Z) :=
  [ ("n"%string, crt_n k);
    ("p"%string, crt_p k); ("q"%string, crt_q k);
    ("dp"%string, crt_dp k); ("dq"%string, crt_dq k);
    ("qinv"%string, crt_qinv k) ].

(** A value fits a declaration when it has the declared members, each with
    the declared number of words. *)
Definition shape (ms : list (string * list Z)) : struct_decl :=
  map (fun m => Member (fst m) (List.length (snd m))) ms.

Definition is_word (w : Z) : Prop := 0 <= w < 2 ^ 32.

(** ** Byte-to-word importer *)

Definition byte_val (b : byte) : Z := Z.of_N (Byte.to_N b).

(** The number a big-endian byte sequence denotes. *)
Definition be_value (bs : list byte) : Z :=
  fold_left (fun acc b => 256 * acc + byte_val b) bs 0.

(** Position of the most significant set bit of a number, 0 for zero. *)
Definition bit_length (v : Z) : Z :=
  if v =? 0 then 0 else Z.log2 v + 1.

(** The two width rules of a field: exact width for moduli and primes, an
    upper bound for exponents and the CRT coefficient. *)
Inductive width_rule := Exact | AtMost.

(** Outcome of an import or of an assembly. *)
Inductive result (A : Type) :=
| Ok (a : A)
| LengthError.

Arguments Ok {A} _.
Arguments LengthError {A}.

Definition bind {A B} (r : result A) (f : A -> result B) : result B :=
  match r with
  | Ok a => f a
  | LengthError => LengthError
  end.

Notation "x <- r ;; k" := (bind r (fun x => k))
  (at level 61, r at next level, right associativity).

(** Modelled from the spec: the stripping of leading zero bytes done by the
    importer, whose body is not in the header. *)
Fixpoint strip_leading_zeros (bs : list byte) : list byte :=
  match bs with
  | [] => []
  | b :: bs' => if byte_val b =? 0 then strip_leading_zeros bs' else bs
  end.

(** Modelled from the spec: the effective bit-length of a buffer, computed
    on the stripped bytes: eight bits for every byte below the first one,
    plus the position of the most significant set bit of the first. *)
Definition effective_bits (bs : list byte) : Z :=
  match strip_leading_zeros bs with
  | [] => 0
  | b :: rest => 8 * Z.of_nat (List.length rest) + (Z.log2 (byte_val b) + 1)
  end.

(** Modelled from the spec: the width check of the importer. *)
Definition width_ok (r : width_rule) (bits : Z) (bs : list byte) : bool :=
  match r with
  | Exact => effective_bits bs =? bits
  | AtMost => effective_bits bs <=? bits
  end.

(** Four bytes, least significant first, as one 32 bit word. *)
Definition word_of_bytes (b0 b1 b2 b3 : byte) : Z :=
  byte_val b0 + 2 ^ 8 * byte_val b1 + 2 ^ 16 * byte_val b2 + 2 ^ 24 * byte_val b3.

(** Modelled from the spec: packing of a least-significant-first byte
    sequence into [W] words, word 0 least significant, zero above the
    supplied bytes. *)
Fixpoint le_words (W : nat) (le : list byte) : list Z :=
  match W with
  | O => []
  | S W' =>
      word_of_bytes (nth 0 le x00) (nth 1 le x00) (nth 2 le x00) (nth 3 le x00)
      :: le_words W' (skipn 4 le)
  end.

(** Number of words of a field of [bits] bits. *)
Definition words_of_bits (bits : Z) : nat := Z.to_nat (bits / 32).

(** Modelled from the spec: [import(buffer, declared_length,
    expected_bit_width)] of the byte-to-word importer, whose body is not in
    the header.  The buffer and its declared length are the list of the
    declared number of bytes. *)
Definition import (r : width_rule) (bits : Z) (bs : list byte) : result (list Z) :=
  if width_ok r bits bs
  then Ok (le_words (words_of_bits bits) (rev (strip_leading_zeros bs)))
  else LengthError.

(** Modelled from the spec: big-endian export of a word array, used by the
    round trip property; the header declares no export function. *)
Definition byte_of_Z (z : Z) : byte :=
  match Byte.of_N (Z.to_N (z mod 256)) with
  | Some b => b
  | None => x00
  end.

Definition word_bytes_be (w : Z) : list byte :=
  [ byte_of_Z (w / 2 ^ 24); byte_of_Z (w / 2 ^ 16); byte_of_Z (w / 2 ^ 8); byte_of_Z w ].

Definition export_be (ws : list Z) : list byte :=
  flat_map word_bytes_be (rev ws).

(** The number a word array denotes (word 0 least significant) and the
    [W] low words of a number. *)
Fixpoint words_value (ws : list Z) : Z :=
  match ws with
  | [] => 0
  | w :: ws' => w + 2 ^ 32 * words_value ws'
  end.

Fixpoint value_words (W : nat) (v : Z) : list Z :=
  match W with
  | O => []
  | S W' => v mod 2 ^ 32 :: value_words W' (v / 2 ^ 32)
  end.

(** ** Key assembler *)

(** Modelled from the spec: the return code of an entry point and the
    contents of [*k] after the call: 0 and the assembled structure, or -1
    and the structure as it was (sections 2 and 6: no field is written
    unless all fields validate).  The spec also allows an unspecified
    partial state after a failure (section 3); this model has no in-place
    writes and does not represent one. *)
Definition commit {K} (k : K) (r : result K) : Z * K :=
  match r with
  | Ok k' => (0, k')
  | LengthError => (-1, k)
  end.

(** Modelled from the spec: [init_public_key], the body of
    [occ_rsaNNNN_init_pub_key], which is not in the header. *)
Definition occ_rsa_init_pub_key (s : key_size) (k : occ_rsa_pub_key s)
    (n : list byte) : Z * occ_rsa_pub_key s :=
  commit k (
    n' <- import Exact (key_bits s) n ;;
    Ok (PubKey n')).

(** Modelled from the spec: [init_secret_key], the body of
    [occ_rsaNNNN_init_key], which is not in the header. *)
Definition occ_rsa_init_key (s : key_size) (k : occ_rsa_key s)
    (n d : list byte) : Z * occ_rsa_key s :=
  commit k (
    n' <- import Exact (key_bits s) n ;;
    d' <- import AtMost (key_bits s) d ;;
    Ok (Key n' d')).

(** Modelled from the spec: [init_crt_secret_key], the body of
    [occ_rsaNNNN_init_crt_key], which is not in the header.  The prototype
    has no modulus buffer, and neither the spec nor the documentation of the
    prototype says how the member [n] is filled; here it holds the product
    of the two primes, after the comment of the structure ([p*q = n]).
    No theorem states what number [n] holds; the return code and the five
    members filled from buffers do not depend on it. *)
Definition occ_rsa_init_crt_key (s : key_size) (k : occ_rsa_crt_key s)
    (p q dp dq qinv : list byte) : Z * occ_rsa_crt_key s :=
  commit k (
    p' <- import Exact (half_bits s) p ;;
    q' <- import Exact (half_bits s) q ;;
    dp' <- import AtMost (half_bits s) dp ;;
    dq' <- import AtMost (half_bits s) dq ;;
    qinv' <- import AtMost (half_bits s) qinv ;;
    Ok (CrtKey (value_words (key_words s) (words_value p' * words_value q'))
               p' q' dp' dq' qinv')).

Definition occ_rsa1024_init_pub_key := occ_rsa_init_pub_key RSA1024.
Definition occ_rsa1024_init_key := occ_rsa_init_key RSA1024.
Definition occ_rsa2048_init_pub_key := occ_rsa_init_pub_key RSA2048.
Definition occ_rsa2048_init_key := occ_rsa_init_key RSA2048.
Definition occ_rsa2048_init_crt_key := occ_rsa_init_crt_key RSA2048.

(** A field obeys its width rule, in terms of the number it denotes. *)
Definition obeys (r : width_rule) (bits : Z) (bs : list byte) : Prop :=
  match r with
  | Exact => bit_length (be_value bs) = bits
  | AtMost => bit_length (be_value bs) <= bits
  end.

(** Example buffers. *)
Definition zeros (len : nat) : list byte := repeat x00 len.

(** The smallest number of exactly [8 * (len + 1)] bits. *)
Definition top_bit_buffer (len : nat) : list byte := x80 :: zeros len.

(** The words a field is stored as once its width check has passed. *)
Definition packed (bits : Z) (bs : list byte) : list Z :=
  le_words (words_of_bits bits) (rev (strip_leading_zeros bs)).

(** All fields of a call obey their width rules. *)
Definition pub_key_valid (s : key_size) (n : list byte) : Prop :=
  obeys Exact (key_bits s) n.

Definition key_valid (s : key_size) (n d : list byte) : Prop :=
  obeys Exact (key_bits s) n /\ obeys AtMost (key_bits s) d.

Definition crt_key_valid (s : key_size) (p q dp dq qinv : list byte) : Prop :=
  obeys Exact (half_bits s) p /\ obeys Exact (half_bits s) q /\
  obeys AtMost (half_bits s) dp /\ obeys AtMost (half_bits s) dq /\
  obeys AtMost (half_bits s) qinv.

(** The most significant word of a word array. *)
Definition top_word (ws : list Z) : Z := last ws 0.

(** The prototype of each entry point, by key size. *)
Definition init_pub_key_proto (s : key_size) : prototype :=
  match s with
  | RSA1024 => occ_rsa1024_init_pub_key_proto
  | RSA2048 => occ_rsa2048_init_pub_key_proto
  end.

Definition init_key_proto (s : key_size) : prototype :=
  match s with
  | RSA1024 => occ_rsa1024_init_key_proto
  | RSA2048 => occ_rsa2048_init_key_proto
  end.

Definition init_crt_key_proto (s : key_size) : prototype :=
  match s with
  | RSA1024 => occ_rsa1024_init_crt_key_proto
  | RSA2048 => occ_rsa2048_init_crt_key_proto
  end.

(** The five CRT members, each of [W] words. *)
Definition five_crt_members (W : nat) : struct_decl :=
  [ Member "p" W; Member "q" W; Member "dp" W; Member "dq" W; Member "qinv" W ].

(** The most significant bit of the first byte of a buffer is set. *)
Definition msb_set (bs : list byte) : Prop := 128 <= byte_val (hd x00 bs).

(** Structures as they are before a call in the examples. *)
Definition blank_pub_key (s : key_size) : occ_rsa_pub_key s := PubKey [].
Definition blank_key (s : key_size) : occ_rsa_key s := Key [] [].
Definition blank_crt_key (s : key_size) : occ_rsa_crt_key s :=
  CrtKey [] [] [] [] [] [].

(** Offset of a member in a structure, in words: the words of the members
    declared before it.  All members are [uint32_t] arrays, so there is no
    padding between them. *)
Fixpoint member_offset (name : string) (d : struct_decl) : option nat :=
  match d with
  | [] => None
  | m :: d' =>
      if String.eqb (m_name m) name then Some 0%nat
      else option_map (Nat.add (m_words m)) (member_offset name d')
  end.

(** A declaration with every array twice as long. *)
Definition double_members (d : struct_decl) : struct_decl :=
  map (fun m => Member (m_name m) (2 * m_words m)) d.


(** * Properties *)

(** ** Bytes and big-endian values *)

Lemma byte_val_range (b : byte) : 0 <= byte_val b < 256.
Proof.
  unfold byte_val. pose proof (Byte.to_N_bounded b) as H.
  lia.
Qed.

Lemma byte_val_x00 : byte_val x00 = 0.
Proof. reflexivity. Qed.

Lemma be_value_acc (bs : list byte) (a : Z) :
  fold_left (fun acc b => 256 * acc + byte_val b) bs a
  = a * 256 ^ Z.of_nat (List.length bs) + be_value bs.
Proof.
  unfold be_value. revert a.
  induction bs as [|b bs IH]; intros a.
  - simpl. lia.
  - cbn [fold_left List.length]. rewrite IH, (IH (256 * 0 + byte_val b)).
    rewrite Nat2Z.inj_succ, Z.pow_succ_r by lia. ring.
Qed.

Lemma be_value_cons (b : byte) (bs : list byte) :
  be_value (b :: bs) = byte_val b * 256 ^ Z.of_nat (List.length bs) + be_value bs.
Proof.
  unfold be_value at 1. cbn [fold_left]. rewrite be_value_acc. ring.
Qed.

Lemma be_value_nil : be_value [] = 0.
Proof. reflexivity. Qed.

Lemma be_value_range (bs : list byte) :
  0 <= be_value bs < 256 ^ Z.of_nat (List.length bs).
Proof.
  induction bs as [|b bs IH].
  - cbn. lia.
  - rewrite be_value_cons. cbn [List.length].
    rewrite Nat2Z.inj_succ, Z.pow_succ_r by lia.
    pose proof (byte_val_range b). nia.
Qed.

Lemma be_value_strip (bs : list byte) :
  be_value (strip_leading_zeros bs) = be_value bs.
Proof.
  induction bs as [|b bs IH]; [reflexivity|].
  cbn [strip_leading_zeros].
  destruct (byte_val b =? 0) eqn:E; [|reflexivity].
  apply Z.eqb_eq in E. rewrite IH, be_value_cons, E. ring.
Qed.

Lemma strip_zeros_app (z : nat) (bs : list byte) :
  strip_leading_zeros (zeros z ++ bs) = strip_leading_zeros bs.
Proof.
  induction z as [|z IH]; [reflexivity|].
  cbn [zeros repeat app strip_leading_zeros]. rewrite byte_val_x00.
  exact IH.
Qed.

Lemma strip_zeros_all (z : nat) : strip_leading_zeros (zeros z) = [].
Proof.
  rewrite <- (app_nil_r (zeros z)), strip_zeros_app. reflexivity.
Qed.

Lemma strip_head_nonzero (b : byte) (bs : list byte) :
  byte_val b <> 0 -> strip_leading_zeros (b :: bs) = b :: bs.
Proof.
  intros H. cbn [strip_leading_zeros].
  apply Z.eqb_neq in H. now rewrite H.
Qed.

Lemma strip_length (bs : list byte) :
  (List.length (strip_leading_zeros bs) <= List.length bs)%nat.
Proof.
  induction bs as [|b bs IH]; cbn [strip_leading_zeros List.length]; [lia|].
  destruct (byte_val b =? 0); cbn [List.length]; lia.
Qed.

(** What the stripped buffer looks like: empty, or headed by a non-zero
    byte. *)
Lemma strip_cases (bs : list byte) :
  strip_leading_zeros bs = []
  \/ exists b rest, strip_leading_zeros bs = b :: rest /\ byte_val b <> 0.
Proof.
  induction bs as [|b bs IH]; [now left|].
  cbn [strip_leading_zeros].
  destruct (byte_val b =? 0) eqn:E; [exact IH|].
  right. exists b, bs. split; [reflexivity|]. now apply Z.eqb_neq.
Qed.

Lemma pow256 (m : Z) : 0 <= m -> 256 ^ m = 2 ^ (8 * m).
Proof.
  intros H. change 256 with (2 ^ 8). now rewrite <- Z.pow_mul_r by lia.
Qed.

(** The bit-length the importer computes on the stripped bytes is the
    position of the most significant set bit of the number denoted. *)
Lemma effective_bits_spec (bs : list byte) :
  effective_bits bs = bit_length (be_value bs).
Proof.
  unfold effective_bits. rewrite <- (be_value_strip bs).
  destruct (strip_cases bs) as [E | (b & rest & E & Hb)]; rewrite E.
  - reflexivity.
  - rewrite be_value_cons.
    pose proof (byte_val_range b) as Rb.
    pose proof (be_value_range rest) as Rr.
    set (m := Z.of_nat (List.length rest)) in *.
    assert (Hm : 0 <= m) by (subst m; lia).
    rewrite pow256 in * by lia.
    assert (Hpos : 0 < 2 ^ (8 * m)) by (apply Z.pow_pos_nonneg; lia).
    assert (Hb0 : 0 < byte_val b) by lia.
    destruct (Z.log2_spec (byte_val b) Hb0) as [Hlo Hhi].
    pose proof (Z.log2_nonneg (byte_val b)) as Hl.
    unfold bit_length.
    destruct (_ =? 0) eqn:Ez; [apply Z.eqb_eq in Ez; nia|].
    enough (Z.log2 (byte_val b * 2 ^ (8 * m) + be_value rest)
            = Z.log2 (byte_val b) + 8 * m) by lia.
    apply Z.log2_unique; [lia|].
    replace (Z.succ (Z.log2 (byte_val b) + 8 * m))
      with (Z.succ (Z.log2 (byte_val b)) + 8 * m) by lia.
    rewrite !Z.pow_add_r by lia.
    nia.
Qed.

Lemma bit_length_nonneg (v : Z) : 0 <= bit_length v.
Proof.
  unfold bit_length. destruct (v =? 0); [lia|].
  pose proof (Z.log2_nonneg v). lia.
Qed.


Lemma effective_bits_lower (bs : list byte) :
  8 * Z.of_nat (List.length (strip_leading_zeros bs)) - 7 <= effective_bits bs
  \/ strip_leading_zeros bs = [].
Proof.
  unfold effective_bits.
  destruct (strip_cases bs) as [E | (b & rest & E & Hb)]; rewrite E.
  - now right.
  - left. cbn [List.length]. pose proof (Z.log2_nonneg (byte_val b)). lia.
Qed.

(** ** The importer *)

Lemma width_ok_obeys (r : width_rule) (bits : Z) (bs : list byte) :
  width_ok r bits bs = true <-> obeys r bits bs.
Proof.
  unfold width_ok, obeys. rewrite <- effective_bits_spec.
  destruct r; [apply Z.eqb_eq | apply Z.leb_le].
Qed.

Lemma import_ok_iff (r : width_rule) (bits : Z) (bs : list byte) :
  (exists ws, import r bits bs = Ok ws) <-> obeys r bits bs.
Proof.
  rewrite <- width_ok_obeys. unfold import.
  destruct (width_ok r bits bs); split; intros H.
  - reflexivity.
  - eexists; reflexivity.
  - destruct H as [ws H]; discriminate.
  - discriminate.
Qed.

Lemma import_error_iff (r : width_rule) (bits : Z) (bs : list byte) :
  import r bits bs = LengthError <-> ~ obeys r bits bs.
Proof.
  rewrite <- width_ok_obeys. unfold import.
  destruct (width_ok r bits bs); split; intros H; congruence.
Qed.

Lemma import_obeys (r : width_rule) (bits : Z) (bs : list byte) :
  obeys r bits bs ->
  import r bits bs = Ok (le_words (words_of_bits bits) (rev (strip_leading_zeros bs))).
Proof.
  intros H. apply width_ok_obeys in H. unfold import. now rewrite H.
Qed.


Lemma obeys_dec (r : width_rule) (bits : Z) (bs : list byte) :
  obeys r bits bs \/ ~ obeys r bits bs.
Proof.
  destruct (width_ok r bits bs) eqn:E.
  - left. now apply width_ok_obeys.
  - right. intros H. apply width_ok_obeys in H. congruence.
Qed.

(** ** Word packing *)

Lemma byte_of_Z_val (b : byte) : byte_of_Z (byte_val b) = b.
Proof.
  unfold byte_of_Z. pose proof (byte_val_range b) as R.
  rewrite Z.mod_small by lia. unfold byte_val.
  now rewrite N2Z.id, Byte.of_to_N.
Qed.

Lemma byte_of_Z_mod (z : Z) (b : byte) : z mod 256 = byte_val b -> byte_of_Z z = b.
Proof.
  intros H. rewrite <- (byte_of_Z_val b). unfold byte_of_Z.
  rewrite H. now rewrite (Z.mod_small (byte_val b)) by apply byte_val_range.
Qed.

Lemma word_of_bytes_range (b0 b1 b2 b3 : byte) :
  is_word (word_of_bytes b0 b1 b2 b3).
Proof.
  unfold is_word, word_of_bytes.
  pose proof (byte_val_range b0). pose proof (byte_val_range b1).
  pose proof (byte_val_range b2). pose proof (byte_val_range b3).
  lia.
Qed.

Lemma word_bytes_of_bytes (b0 b1 b2 b3 : byte) :
  word_bytes_be (word_of_bytes b0 b1 b2 b3) = [b3; b2; b1; b0].
Proof.
  unfold word_bytes_be, word_of_bytes.
  pose proof (byte_val_range b0). pose proof (byte_val_range b1).
  pose proof (byte_val_range b2). pose proof (byte_val_range b3).
  set (w := byte_val b0 + 2 ^ 8 * byte_val b1 + 2 ^ 16 * byte_val b2
            + 2 ^ 24 * byte_val b3).
  assert (E3 : w / 2 ^ 24 = byte_val b3).
  { symmetry. apply (Z.div_unique w (2 ^ 24) _
      (byte_val b0 + 2 ^ 8 * byte_val b1 + 2 ^ 16 * byte_val b2)); subst w; lia. }
  assert (E2 : w / 2 ^ 16 = byte_val b2 + 2 ^ 8 * byte_val b3).
  { symmetry. apply (Z.div_unique w (2 ^ 16) _
      (byte_val b0 + 2 ^ 8 * byte_val b1)); subst w; lia. }
  assert (E1 : w / 2 ^ 8 = byte_val b1 + 2 ^ 8 * byte_val b2 + 2 ^ 16 * byte_val b3).
  { symmetry. apply (Z.div_unique w (2 ^ 8) _ (byte_val b0)); subst w; lia. }
  rewrite E3, E2, E1.
  repeat f_equal; apply byte_of_Z_mod; [apply Z.mod_small; lia | symmetry ..].
  - apply (Z.mod_unique _ 256 (byte_val b3)); lia.
  - apply (Z.mod_unique _ 256 (byte_val b2 + 2 ^ 8 * byte_val b3)); lia.
  - apply (Z.mod_unique _ 256
      (byte_val b1 + 2 ^ 8 * byte_val b2 + 2 ^ 16 * byte_val b3)); subst w; lia.
Qed.

Lemma le_words_length (W : nat) (le : list byte) :
  List.length (le_words W le) = W.
Proof.
  revert le. induction W as [|W IH]; intros le; cbn [le_words List.length];
    [reflexivity | now rewrite IH].
Qed.

Lemma le_words_is_word (W : nat) (le : list byte) :
  Forall is_word (le_words W le).
Proof.
  revert le. induction W as [|W IH]; intros le; cbn [le_words]; constructor.
  - apply word_of_bytes_range.
  - apply IH.
Qed.

Lemma export_be_cons (w : Z) (ws : list Z) :
  export_be (w :: ws) = export_be ws ++ word_bytes_be w.
Proof.
  unfold export_be. cbn [rev]. rewrite flat_map_app. cbn [flat_map].
  now rewrite app_nil_r.
Qed.

(** Exporting the packed words gives the bytes back, most significant
    first, when the bytes fill the words exactly. *)
Lemma export_le_words (W : nat) (le : list byte) :
  List.length le = (4 * W)%nat -> export_be (le_words W le) = rev le.
Proof.
  revert le. induction W as [|W IH]; intros le Hlen.
  - destruct le; [reflexivity | discriminate].
  - destruct le as [|b0 [|b1 [|b2 [|b3 le']]]]; cbn [List.length] in Hlen; try lia.
    cbn [le_words nth skipn]. rewrite export_be_cons, IH by lia.
    rewrite word_bytes_of_bytes. cbn [rev].
    now rewrite <- !app_assoc.
Qed.

Lemma be_value_app (a b : list byte) :
  be_value (a ++ b) = be_value a * 256 ^ Z.of_nat (List.length b) + be_value b.
Proof.
  unfold be_value at 1. rewrite fold_left_app, be_value_acc. reflexivity.
Qed.

(** The packed words denote the number the bytes denote, when the bytes fit
    into the words. *)
Lemma words_value_le_words (W : nat) (le : list byte) :
  (List.length le <= 4 * W)%nat ->
  words_value (le_words W le) = be_value (rev le).
Proof.
  revert le. induction W as [|W IH]; intros le Hlen.
  - destruct le; [reflexivity | cbn [List.length] in Hlen; lia].
  - cbn [le_words words_value].
    destruct le as [|b0 [|b1 [|b2 [|b3 le']]]]; cbn [List.length] in Hlen;
      cbn [nth skipn]; rewrite IH by (cbn [List.length]; lia);
      cbn [rev app]; rewrite ?be_value_app, ?be_value_nil;
      cbn [List.length]; unfold word_of_bytes; rewrite ?byte_val_x00;
      unfold be_value; cbn [fold_left]; lia.
Qed.

Lemma last_le_words (W : nat) (le : list byte) :
  top_word (le_words (S W) le)
  = word_of_bytes (nth (4 * W) le x00) (nth (4 * W + 1) le x00)
                  (nth (4 * W + 2) le x00) (nth (4 * W + 3) le x00).
Proof.
  unfold top_word. revert le. induction W as [|W IH]; intros le.
  - reflexivity.
  - change (le_words (S (S W)) le)
      with (word_of_bytes (nth 0 le x00) (nth 1 le x00) (nth 2 le x00) (nth 3 le x00)
            :: le_words (S W) (skipn 4 le)).
    change (last (?x :: le_words (S W) ?l) 0) with (last (le_words (S W) l) 0).
    rewrite IH.
    replace (4 * S W)%nat with (4 + 4 * W)%nat by lia.
    rewrite <- !Nat.add_assoc.
    destruct le as [|b0 [|b1 [|b2 [|b3 le']]]];
      cbn [skipn]; rewrite ?nth_nil; cbn [nth Nat.add]; try reflexivity;
      destruct (4 * W)%nat; reflexivity.
Qed.

Lemma value_words_length (W : nat) (v : Z) :
  List.length (value_words W v) = W.
Proof.
  revert v. induction W as [|W IH]; intros v; cbn [value_words List.length];
    [reflexivity | now rewrite IH].
Qed.

Lemma value_words_is_word (W : nat) (v : Z) :
  Forall is_word (value_words W v).
Proof.
  revert v. induction W as [|W IH]; intros v; cbn [value_words]; constructor.
  - unfold is_word. apply Z.mod_pos_bound. lia.
  - apply IH.
Qed.

Lemma words_value_of_value (W : nat) (v : Z) :
  0 <= v < 2 ^ (32 * Z.of_nat W) ->
  words_value (value_words W v) = v.
Proof.
  revert v. induction W as [|W IH]; intros v Hv.
  - cbn in Hv. cbn. lia.
  - cbn [value_words words_value].
    rewrite IH.
    + pose proof (Z.div_mod v (2 ^ 32)). lia.
    + replace (32 * Z.of_nat (S W)) with (32 + 32 * Z.of_nat W) in Hv by lia.
      rewrite Z.pow_add_r in Hv by lia.
      split; [apply Z.div_pos; lia|].
      apply Z.div_lt_upper_bound; lia.
Qed.

Lemma words_of_key_bits (s : key_size) : words_of_bits (key_bits s) = key_words s.
Proof. destruct s; reflexivity. Qed.

Lemma words_of_half_bits (s : key_size) : words_of_bits (half_bits s) = half_words s.
Proof. destruct s; reflexivity. Qed.

Lemma key_bits_words (s : key_size) : key_bits s = 32 * Z.of_nat (key_words s).
Proof. destruct s; reflexivity. Qed.

Lemma half_bits_words (s : key_size) : half_bits s = 32 * Z.of_nat (half_words s).
Proof. destruct s; reflexivity. Qed.


(** A buffer that passes a width check fits, once stripped, into the words
    of the field. *)
Lemma obeys_stripped_length (r : width_rule) (W : nat) (bs : list byte) :
  obeys r (32 * Z.of_nat W) bs ->
  (List.length (strip_leading_zeros bs) <= 4 * W)%nat.
Proof.
  intros H.
  assert (Hle : effective_bits bs <= 32 * Z.of_nat W).
  { rewrite effective_bits_spec. destruct r; cbn [obeys] in H; lia. }
  destruct (effective_bits_lower bs) as [Hlow | E].
  - lia.
  - rewrite E. cbn [List.length]. lia.
Qed.

(** The stored words of an accepted field denote the number the buffer
    denotes. *)
Lemma packed_value (r : width_rule) (W : nat) (bs : list byte) :
  obeys r (32 * Z.of_nat W) bs ->
  words_value (le_words W (rev (strip_leading_zeros bs))) = be_value bs.
Proof.
  intros H. rewrite words_value_le_words.
  - now rewrite rev_involutive, be_value_strip.
  - rewrite length_rev. now apply obeys_stripped_length with (r := r).
Qed.

(** ** The entry points *)

Lemma init_pub_key_valid (s : key_size) (k : occ_rsa_pub_key s) (n : list byte) :
  pub_key_valid s n ->
  occ_rsa_init_pub_key s k n = (0, PubKey (packed (key_bits s) n)).
Proof.
  intros H. unfold occ_rsa_init_pub_key.
  now rewrite (import_obeys _ _ _ H).
Qed.

Lemma init_pub_key_invalid (s : key_size) (k : occ_rsa_pub_key s) (n : list byte) :
  ~ pub_key_valid s n ->
  occ_rsa_init_pub_key s k n = (-1, k).
Proof.
  intros H. unfold occ_rsa_init_pub_key, pub_key_valid in *.
  apply import_error_iff in H. now rewrite H.
Qed.

Lemma init_key_valid (s : key_size) (k : occ_rsa_key s) (n d : list byte) :
  key_valid s n d ->
  occ_rsa_init_key s k n d
  = (0, Key (packed (key_bits s) n) (packed (key_bits s) d)).
Proof.
  intros [Hn Hd]. unfold occ_rsa_init_key.
  now rewrite (import_obeys _ _ _ Hn), (import_obeys _ _ _ Hd).
Qed.

Lemma init_key_invalid (s : key_size) (k : occ_rsa_key s) (n d : list byte) :
  ~ key_valid s n d ->
  occ_rsa_init_key s k n d = (-1, k).
Proof.
  intros H. unfold occ_rsa_init_key, key_valid in *.
  destruct (obeys_dec Exact (key_bits s) n) as [Hn | Hn].
  - rewrite (import_obeys _ _ _ Hn). cbn [bind].
    assert (Hd : ~ obeys AtMost (key_bits s) d) by tauto.
    apply import_error_iff in Hd. now rewrite Hd.
  - apply import_error_iff in Hn. now rewrite Hn.
Qed.

Lemma init_crt_key_valid (s : key_size) (k : occ_rsa_crt_key s)
    (p q dp dq qinv : list byte) :
  crt_key_valid s p q dp dq qinv ->
  occ_rsa_init_crt_key s k p q dp dq qinv
  = (0, CrtKey (value_words (key_words s)
                  (words_value (packed (half_bits s) p)
                   * words_value (packed (half_bits s) q)))
               (packed (half_bits s) p) (packed (half_bits s) q)
               (packed (half_bits s) dp) (packed (half_bits s) dq)
               (packed (half_bits s) qinv)).
Proof.
  intros (Hp & Hq & Hdp & Hdq & Hqi). unfold occ_rsa_init_crt_key.
  now rewrite (import_obeys _ _ _ Hp), (import_obeys _ _ _ Hq),
    (import_obeys _ _ _ Hdp), (import_obeys _ _ _ Hdq), (import_obeys _ _ _ Hqi).
Qed.

Lemma init_crt_key_invalid (s : key_size) (k : occ_rsa_crt_key s)
    (p q dp dq qinv : list byte) :
  ~ crt_key_valid s p q dp dq qinv ->
  occ_rsa_init_crt_key s k p q dp dq qinv = (-1, k).
Proof.
  intros H. unfold occ_rsa_init_crt_key, crt_key_valid in *.
  destruct (obeys_dec Exact (half_bits s) p) as [Hp | Hp];
    [rewrite (import_obeys _ _ _ Hp); cbn [bind]
    | apply import_error_iff in Hp; now rewrite Hp].
  destruct (obeys_dec Exact (half_bits s) q) as [Hq | Hq];
    [rewrite (import_obeys _ _ _ Hq); cbn [bind]
    | apply import_error_iff in Hq; now rewrite Hq].
  destruct (obeys_dec AtMost (half_bits s) dp) as [Hdp | Hdp];
    [rewrite (import_obeys _ _ _ Hdp); cbn [bind]
    | apply import_error_iff in Hdp; now rewrite Hdp].
  destruct (obeys_dec AtMost (half_bits s) dq) as [Hdq | Hdq];
    [rewrite (import_obeys _ _ _ Hdq); cbn [bind]
    | apply import_error_iff in Hdq; now rewrite Hdq].
  assert (Hqi : ~ obeys AtMost (half_bits s) qinv) by tauto.
  apply import_error_iff in Hqi. now rewrite Hqi.
Qed.

Lemma pub_key_valid_dec s n : pub_key_valid s n \/ ~ pub_key_valid s n.
Proof. apply obeys_dec. Qed.

Lemma key_valid_dec s n d : key_valid s n d \/ ~ key_valid s n d.
Proof.
  unfold key_valid.
  destruct (obeys_dec Exact (key_bits s) n), (obeys_dec AtMost (key_bits s) d);
    tauto.
Qed.

Lemma crt_key_valid_dec s p q dp dq qinv :
  crt_key_valid s p q dp dq qinv \/ ~ crt_key_valid s p q dp dq qinv.
Proof.
  unfold crt_key_valid.
  destruct (obeys_dec Exact (half_bits s) p), (obeys_dec Exact (half_bits s) q),
    (obeys_dec AtMost (half_bits s) dp), (obeys_dec AtMost (half_bits s) dq),
    (obeys_dec AtMost (half_bits s) qinv); tauto.
Qed.

(** Return code of each entry point in terms of the width rules. *)
Lemma init_pub_key_code s k n :
  (fst (occ_rsa_init_pub_key s k n) = 0 <-> pub_key_valid s n) /\
  (fst (occ_rsa_init_pub_key s k n) = -1 <-> ~ pub_key_valid s n).
Proof.
  destruct (pub_key_valid_dec s n) as [H | H].
  - rewrite (init_pub_key_valid s k n H). cbn [fst]. split; split; intros; (tauto || lia).
  - rewrite (init_pub_key_invalid s k n H). cbn [fst]. split; split; intros; (tauto || lia).
Qed.

Lemma init_key_code s k n d :
  (fst (occ_rsa_init_key s k n d) = 0 <-> key_valid s n d) /\
  (fst (occ_rsa_init_key s k n d) = -1 <-> ~ key_valid s n d).
Proof.
  destruct (key_valid_dec s n d) as [H | H].
  - rewrite (init_key_valid s k n d H). cbn [fst]. split; split; intros; (tauto || lia).
  - rewrite (init_key_invalid s k n d H). cbn [fst]. split; split; intros; (tauto || lia).
Qed.

Lemma init_crt_key_code s k p q dp dq qinv :
  (fst (occ_rsa_init_crt_key s k p q dp dq qinv) = 0 <-> crt_key_valid s p q dp dq qinv) /\
  (fst (occ_rsa_init_crt_key s k p q dp dq qinv) = -1 <-> ~ crt_key_valid s p q dp dq qinv).
Proof.
  destruct (crt_key_valid_dec s p q dp dq qinv) as [H | H].
  - rewrite (init_crt_key_valid s k _ _ _ _ _ H). cbn [fst].
    split; split; intros; (tauto || lia).
  - rewrite (init_crt_key_invalid s k _ _ _ _ _ H). cbn [fst].
    split; split; intros; (tauto || lia).
Qed.

(** ** Bit-lengths *)


Lemma bit_length_upper (v b : Z) :
  0 <= v -> 0 <= b -> bit_length v <= b -> v < 2 ^ b.
Proof.
  intros Hv Hb H. unfold bit_length in H.
  destruct (v =? 0) eqn:E.
  - apply Z.eqb_eq in E. subst v. apply Z.pow_pos_nonneg; lia.
  - apply Z.eqb_neq in E.
    assert (Hpos : 0 < v) by lia.
    destruct (Z.log2_spec v Hpos) as [_ Hhi].
    apply Z.lt_le_trans with (2 ^ Z.succ (Z.log2 v)); [exact Hhi|].
    apply Z.pow_le_mono_r; lia.
Qed.

Lemma be_value_zeros (z : nat) : be_value (zeros z) = 0.
Proof.
  rewrite <- be_value_strip, strip_zeros_all. reflexivity.
Qed.

(** A buffer that fills the field and has its top bit set has exactly the
    width of the field. *)
Lemma msb_set_bits (bs : list byte) :
  msb_set bs -> bit_length (be_value bs) = 8 * Z.of_nat (List.length bs).
Proof.
  unfold msb_set. intros H. rewrite <- effective_bits_spec.
  destruct bs as [|b bs]; [cbn in H; lia|].
  cbn [hd] in H. unfold effective_bits.
  rewrite strip_head_nonzero by lia.
  pose proof (byte_val_range b) as R.
  assert (Z.log2 (byte_val b) = 7).
  { apply Z.log2_unique; [lia|]. change (2 ^ 7) with 128.
    change (2 ^ Z.succ 7) with 256. lia. }
  cbn [List.length]. lia.
Qed.

Lemma msb_set_strip (bs : list byte) :
  msb_set bs -> strip_leading_zeros bs = bs.
Proof.
  unfold msb_set. intros H.
  destruct bs as [|b bs]; [reflexivity|].
  cbn [hd] in H. apply strip_head_nonzero. lia.
Qed.

Lemma top_word_msb (W : nat) (bs : list byte) :
  List.length bs = (4 * S W)%nat -> msb_set bs ->
  Z.testbit (top_word (le_words (S W) (rev bs))) 31 = true.
Proof.
  intros Hlen Hm. rewrite last_le_words.
  assert (E : nth (4 * W + 3) (rev bs) x00 = hd x00 bs).
  { rewrite rev_nth by lia. rewrite Hlen.
    replace (4 * S W - S (4 * W + 3))%nat with 0%nat by lia.
    now destruct bs. }
  rewrite E. unfold msb_set in Hm.
  set (b0 := nth (4 * W) (rev bs) x00).
  set (b1 := nth (4 * W + 1) (rev bs) x00).
  set (b2 := nth (4 * W + 2) (rev bs) x00).
  pose proof (byte_val_range b0). pose proof (byte_val_range b1).
  pose proof (byte_val_range b2). pose proof (byte_val_range (hd x00 bs)).
  apply Z.testbit_true; [lia|].
  unfold word_of_bytes.
  set (w := byte_val b0 + 2 ^ 8 * byte_val b1 + 2 ^ 16 * byte_val b2
            + 2 ^ 24 * byte_val (hd x00 bs)).
  assert (Eq : w / 2 ^ 31 = 1).
  { symmetry. apply (Z.div_unique w (2 ^ 31) 1 (w - 2 ^ 31)); subst w; lia. }
  rewrite Eq. reflexivity.
Qed.

(** ** Shape of the assembled structures *)

Lemma packed_length (bits : Z) (bs : list byte) :
  List.length (packed bits bs) = words_of_bits bits.
Proof. apply le_words_length. Qed.

(** A successful CRT setup leaves a structure of the declared shape. *)
Lemma init_crt_key_shape (s : key_size) (k : occ_rsa_crt_key s)
    (p q dp dq qinv : list byte) :
  crt_key_valid s p q dp dq qinv ->
  shape (crt_key_members (snd (occ_rsa_init_crt_key s k p q dp dq qinv)))
  = crt_key_decl s.
Proof.
  intros H. rewrite (init_crt_key_valid s k _ _ _ _ _ H).
  unfold shape, crt_key_members.
  cbn [snd map fst crt_n crt_p crt_q crt_dp crt_dq crt_qinv].
  rewrite value_words_length, !packed_length, words_of_half_bits.
  destruct s; reflexivity.
Qed.

Lemma init_key_shape (s : key_size) (k : occ_rsa_key s) (n d : list byte) :
  key_valid s n d ->
  shape (key_members (snd (occ_rsa_init_key s k n d))) = key_decl s.
Proof.
  intros H. rewrite (init_key_valid s k _ _ H).
  unfold shape, key_members. cbn [snd map fst key_n key_d].
  rewrite !packed_length, words_of_key_bits.
  destruct s; reflexivity.
Qed.

Lemma init_pub_key_shape (s : key_size) (k : occ_rsa_pub_key s) (n : list byte) :
  pub_key_valid s n ->
  shape (pub_key_members (snd (occ_rsa_init_pub_key s k n))) = pub_key_decl s.
Proof.
  intros H. rewrite (init_pub_key_valid s k _ H).
  unfold shape, pub_key_members. cbn [snd map fst pub_n].
  rewrite !packed_length, words_of_key_bits.
  destruct s; reflexivity.
Qed.

(** * The claims *)

(** C1, as stated, fails: the 1024 bit CRT structure is not just the two
    primes, the two CRT exponents and the coefficient of 16 words each; it
    also has the member [n] of 32 words. *)
Lemma crt_key_layout_has_modulus :
  occ_rsa1024_crt_key_decl <> five_crt_members 16
  /\ In (Member "n" 32) occ_rsa1024_crt_key_decl
  /\ ~ In (Member "n" 32) (five_crt_members 16)
  /\ total_words occ_rsa1024_crt_key_decl = 112%nat
  /\ total_words (five_crt_members 16) = 80%nat.
Proof.
  repeat split.
  - discriminate.
  - now left.
  - cbn. intros H. repeat (destruct H as [H | H]; [discriminate H|]). exact H.
Qed.

(** C1, amended: at each key size the CRT secret-key structure is the
    modulus [n] of full key width (32 words, 64 for 2048 bit) followed by
    two primes, two CRT exponents and one coefficient, each of half key
    width (16 words, doubled to 32 for 2048 bit), and has no other member;
    the members of a structure value are these six. *)
Theorem crt_key_layout (s : key_size) :
  crt_key_decl s
  = Member "n" (key_words s) :: five_crt_members (half_words s)
  /\ half_words RSA1024 = 16%nat
  /\ half_words RSA2048 = (2 * half_words RSA1024)%nat
  /\ key_words s = (2 * half_words s)%nat
  /\ total_words (crt_key_decl s) = (7 * half_words s)%nat
  /\ forall k : occ_rsa_crt_key s,
       map fst (crt_key_members k) = member_names (crt_key_decl s).
Proof.
  destruct s; repeat split.
Qed.

(** C9: the public exponent is the constant 65537; the public and plain
    secret key structures have the members [n], and [n] and [d], of full key
    width and nothing else, and the setup entry points of these keys receive
    the buffers [n], and [n] and [d], and no exponent. *)
Theorem public_exponent_fixed (s : key_size) :
  PUB_EXP = 65537
  /\ PUB_EXP = 2 ^ 16 + 1
  /\ pub_key_decl s = [ Member "n" (key_words s) ]
  /\ key_decl s = [ Member "n" (key_words s); Member "d" (key_words s) ]
  /\ total_words (pub_key_decl s) = key_words s
  /\ total_words (key_decl s) = (2 * key_words s)%nat
  /\ init_pub_key_proto s
     = [ POut "k" (pub_key_decl s); PBytes "n"; PLen "nlen" ]
  /\ init_key_proto s
     = [ POut "k" (key_decl s); PBytes "n"; PLen "nlen"; PBytes "d"; PLen "dlen" ]
  /\ buffer_names (init_pub_key_proto s) = [ "n"%string ]
  /\ buffer_names (init_key_proto s) = [ "n"%string; "d"%string ]
  /\ (forall k : occ_rsa_pub_key s,
        map fst (pub_key_members k) = member_names (pub_key_decl s))
  /\ (forall k : occ_rsa_key s,
        map fst (key_members k) = member_names (key_decl s)).
Proof.
  destruct s; repeat split.
Qed.

(** C10: each CRT secret-key structure has, besides the five half-width
    members, the member [n] of full key width (32 words, 64 for 2048 bit),
    twice the width of a prime; the CRT setup entry point receives the
    buffers [p], [q], [dp], [dq] and [qinv], each with its length, and the
    output structure, and nothing else: no buffer is named after the modulus
    and none is left over for it once the five half-width members have
    theirs.  So no call can hand a modulus to the setup: whatever [n] holds
    afterwards is not a value of the caller. *)
Theorem crt_modulus_not_supplied (s : key_size) :
  In (Member "n" (key_words s)) (crt_key_decl s)
  /\ key_words RSA1024 = 32%nat /\ key_words RSA2048 = 64%nat
  /\ key_words s = (2 * half_words s)%nat
  /\ crt_key_decl s = Member "n" (key_words s) :: five_crt_members (half_words s)
  /\ init_crt_key_proto s
     = [ POut "k" (crt_key_decl s);
         PBytes "p"; PLen "plen"; PBytes "q"; PLen "qlen";
         PBytes "dp"; PLen "dplen"; PBytes "dq"; PLen "dqlen";
         PBytes "qinv"; PLen "qilen" ]
  /\ buffer_names (init_crt_key_proto s)
     = member_names (five_crt_members (half_words s))
  /\ ~ In "n"%string (buffer_names (init_crt_key_proto s))
  /\ List.length (buffer_names (init_crt_key_proto s))
     = (List.length (member_names (crt_key_decl s)) - 1)%nat.
Proof.
  split; [destruct s; now left|].
  split; [reflexivity|]. split; [reflexivity|].
  split; [destruct s; reflexivity|].
  split; [destruct s; reflexivity|].
  split; [destruct s; reflexivity|].
  split; [destruct s; reflexivity|].
  split; [|destruct s; reflexivity].
  destruct s; cbn; intros H;
    repeat (destruct H as [H | H]; [discriminate H|]); exact H.
Qed.







(** Import of a buffer that fills a field of [W] words and has its top bit
    set: both width rules accept it, the most significant word has its top
    bit set, and the big-endian export of the words is the buffer. *)
Lemma import_full_width (r : width_rule) (W : nat) (bs : list byte) :
  List.length bs = (4 * W)%nat -> msb_set bs ->
  exists ws,
    import r (32 * Z.of_nat W) bs = Ok ws
    /\ List.length ws = W
    /\ Z.testbit (top_word ws) 31 = true
    /\ export_be ws = bs.
Proof.
  intros Hlen Hm.
  assert (Hb : bit_length (be_value bs) = 32 * Z.of_nat W)
    by (rewrite (msb_set_bits bs Hm), Hlen; lia).
  assert (Ho : obeys r (32 * Z.of_nat W) bs)
    by (destruct r; cbn [obeys]; lia).
  assert (HW : words_of_bits (32 * Z.of_nat W) = W).
  { unfold words_of_bits. rewrite Z.mul_comm, Z.div_mul by lia.
    apply Nat2Z.id. }
  exists (le_words W (rev bs)).
  rewrite (import_obeys _ _ _ Ho), HW, (msb_set_strip bs Hm).
  split; [reflexivity|]. split; [apply le_words_length|]. split.
  - destruct W as [|W].
    + destruct bs; [unfold msb_set in Hm; cbn in Hm; lia | discriminate].
    + now apply top_word_msb.
  - rewrite export_le_words by (rewrite length_rev; exact Hlen).
    apply rev_involutive.
Qed.

(** C8: a big-endian byte sequence of exactly the byte length of a field
    (128 bytes for a 1024 bit modulus) whose most significant bit is set is
    imported with success under either width rule; the most significant
    word of the resulting word array has its top bit set, and the
    big-endian export of the word array is the original byte sequence.  So
    the public key setup, and the plain secret key setup with an exponent
    within its bound, succeed on such a modulus and store these words. *)
Theorem exact_width_round_trip (s : key_size) :
  (forall (r : width_rule) (bits : Z) (bs : list byte),
     bits = key_bits s \/ bits = half_bits s ->
     8 * Z.of_nat (List.length bs) = bits -> msb_set bs ->
     exists ws,
       import r bits bs = Ok ws
       /\ List.length ws = words_of_bits bits
       /\ Z.testbit (top_word ws) 31 = true
       /\ export_be ws = bs)
  /\ (forall (k : occ_rsa_pub_key s) (n : list byte),
     8 * Z.of_nat (List.length n) = key_bits s -> msb_set n ->
     exists k',
       occ_rsa_init_pub_key s k n = (0, k')
       /\ Z.testbit (top_word (pub_n k')) 31 = true
       /\ export_be (pub_n k') = n)
  /\ (forall (k : occ_rsa_key s) (n d : list byte),
     8 * Z.of_nat (List.length n) = key_bits s -> msb_set n ->
     bit_length (be_value d) <= key_bits s ->
     exists k',
       occ_rsa_init_key s k n d = (0, k')
       /\ Z.testbit (top_word (key_n k')) 31 = true
       /\ export_be (key_n k') = n).
Proof.
  assert (Himp : forall r W bs,
            8 * Z.of_nat (List.length bs) = 32 * Z.of_nat W -> msb_set bs ->
            exists ws, import r (32 * Z.of_nat W) bs = Ok ws
                       /\ List.length ws = W
                       /\ Z.testbit (top_word ws) 31 = true
                       /\ export_be ws = bs).
  { intros r W bs Hlen Hm. apply import_full_width; [lia | exact Hm]. }
  split; [|split].
  - intros r bits bs [Hb | Hb] Hlen Hm; subst bits.
    + rewrite words_of_key_bits. rewrite key_bits_words in *. now apply Himp.
    + rewrite words_of_half_bits. rewrite half_bits_words in *. now apply Himp.
  - intros k n Hlen Hm. rewrite key_bits_words in Hlen.
    destruct (Himp Exact _ _ Hlen Hm) as (ws & Hi & _ & Ht & He).
    exists (PubKey ws). unfold occ_rsa_init_pub_key.
    rewrite key_bits_words, Hi. cbn [bind commit pub_n]. auto.
  - intros k n d Hlen Hm Hd.
    pose proof Hlen as Hlen'. rewrite key_bits_words in Hlen'.
    destruct (Himp Exact _ _ Hlen' Hm) as (ws & Hi & _ & Ht & He).
    assert (Hod : obeys AtMost (key_bits s) d) by exact Hd.
    exists (Key ws (packed (key_bits s) d)). unfold occ_rsa_init_key.
    rewrite (import_obeys _ _ _ Hod).
    unfold packed. rewrite key_bits_words, Hi.
    cbn [bind commit key_n]. auto.
Qed.

Lemma exact_width_round_trip_witness :
  exists k',
    occ_rsa1024_init_key (blank_key RSA1024) (top_bit_buffer 127) (x01 :: zeros 63)
    = (0, k')
    /\ Z.testbit (top_word (key_n k')) 31 = true
    /\ export_be (key_n k') = top_bit_buffer 127.
Proof.
  destruct (exact_width_round_trip RSA1024) as (_ & _ & Hkey).
  apply Hkey.
  - reflexivity.
  - vm_compute. discriminate.
  - vm_compute. discriminate.
Defined.

(** * Further properties of the header and of the setup model *)

(** ** Layout of the structures *)

(** X1: each 2048 bit structure has the members of the 1024 bit structure
    of the same kind, in the same order and under the same names, every
    array twice as long. *)
Theorem structures_2048_double_1024 :
  occ_rsa2048_pub_key_decl = double_members occ_rsa1024_pub_key_decl
  /\ occ_rsa2048_key_decl = double_members occ_rsa1024_key_decl
  /\ occ_rsa2048_crt_key_decl = double_members occ_rsa1024_crt_key_decl
  /\ forall d : struct_decl,
       member_names (double_members d) = member_names d
       /\ total_words (double_members d) = (2 * total_words d)%nat.
Proof.
  repeat split.
  - unfold member_names, double_members. rewrite map_map. reflexivity.
  - induction d as [|m d IH]; [reflexivity|].
    cbn [double_members map total_words fold_right m_words] in *.
    unfold double_members, total_words in IH. rewrite IH. lia.
Qed.

(** X2: in all six structures the modulus [n] is the first member, at word
    offset 0, and has the full key width; the secret key structure is the
    public key structure followed by [d], and the CRT structure is the
    public key structure followed by the five half-width members, which lie
    at the word offsets 2h, 3h, 4h, 5h and 6h for h the half key width in
    words. *)
Theorem modulus_first_member (s : key_size) :
  member_offset "n" (pub_key_decl s) = Some 0%nat
  /\ member_offset "n" (key_decl s) = Some 0%nat
  /\ member_offset "n" (crt_key_decl s) = Some 0%nat
  /\ key_decl s = pub_key_decl s ++ [ Member "d" (key_words s) ]
  /\ crt_key_decl s = pub_key_decl s ++ five_crt_members (half_words s)
  /\ member_offset "d" (key_decl s) = Some (key_words s)
  /\ member_offset "p" (crt_key_decl s) = Some (2 * half_words s)%nat
  /\ member_offset "q" (crt_key_decl s) = Some (3 * half_words s)%nat
  /\ member_offset "dp" (crt_key_decl s) = Some (4 * half_words s)%nat
  /\ member_offset "dq" (crt_key_decl s) = Some (5 * half_words s)%nat
  /\ member_offset "qinv" (crt_key_decl s) = Some (6 * half_words s)%nat
  /\ member_offset "e" (pub_key_decl s) = None
  /\ member_offset "d" (crt_key_decl s) = None.
Proof.
  destruct s; repeat split.
Qed.

(** ** Numbers and their bit-lengths *)




(** ** What a successful setup stores *)

Lemma packed_denotes (r : width_rule) (s : key_size) (bs : list byte) :
  (obeys r (key_bits s) bs ->
   words_value (packed (key_bits s) bs) = be_value bs)
  /\ (obeys r (half_bits s) bs ->
      words_value (packed (half_bits s) bs) = be_value bs).
Proof.
  split; intros H; unfold packed.
  - rewrite words_of_key_bits. rewrite key_bits_words in H.
    now apply packed_value with (r := r).
  - rewrite words_of_half_bits. rewrite half_bits_words in H.
    now apply packed_value with (r := r).
Qed.

Lemma packed_is_word (bits : Z) (bs : list byte) :
  Forall is_word (packed bits bs).
Proof. apply le_words_is_word. Qed.

(** X3: after a setup that returns 0, every member filled from a buffer
    denotes the number its buffer denotes (leading zero bytes and shorter
    buffers included), the structure has the declared shape, and every
    stored word is below 2^32. *)
Theorem setup_stores_the_numbers (s : key_size) :
  (forall (k : occ_rsa_pub_key s) (n : list byte),
     fst (occ_rsa_init_pub_key s k n) = 0 ->
     let k' := snd (occ_rsa_init_pub_key s k n) in
     words_value (pub_n k') = be_value n
     /\ shape (pub_key_members k') = pub_key_decl s
     /\ Forall is_word (pub_n k'))
  /\ (forall (k : occ_rsa_key s) (n d : list byte),
     fst (occ_rsa_init_key s k n d) = 0 ->
     let k' := snd (occ_rsa_init_key s k n d) in
     words_value (key_n k') = be_value n
     /\ words_value (key_d k') = be_value d
     /\ shape (key_members k') = key_decl s
     /\ Forall is_word (key_n k') /\ Forall is_word (key_d k'))
  /\ (forall (k : occ_rsa_crt_key s) (p q dp dq qinv : list byte),
     fst (occ_rsa_init_crt_key s k p q dp dq qinv) = 0 ->
     let k' := snd (occ_rsa_init_crt_key s k p q dp dq qinv) in
     words_value (crt_p k') = be_value p
     /\ words_value (crt_q k') = be_value q
     /\ words_value (crt_dp k') = be_value dp
     /\ words_value (crt_dq k') = be_value dq
     /\ words_value (crt_qinv k') = be_value qinv
     /\ shape (crt_key_members k') = crt_key_decl s
     /\ Forall is_word (crt_n k') /\ Forall is_word (crt_p k')
     /\ Forall is_word (crt_q k') /\ Forall is_word (crt_dp k')
     /\ Forall is_word (crt_dq k') /\ Forall is_word (crt_qinv k')).
Proof.
  split; [|split].
  - intros k n H k'. apply init_pub_key_code in H.
    pose proof (init_pub_key_shape s k n H) as Hs. fold k' in Hs.
    subst k'. rewrite (init_pub_key_valid s k n H) in *. cbn [snd pub_n].
    split; [now apply (packed_denotes Exact s n)|].
    split; [exact Hs | apply packed_is_word].
  - intros k n d H k'. apply init_key_code in H.
    pose proof (init_key_shape s k n d H) as Hs. fold k' in Hs.
    subst k'. rewrite (init_key_valid s k n d H) in *.
    cbn [snd key_n key_d]. destruct H as [Hn Hd].
    split; [now apply (packed_denotes Exact s n)|].
    split; [now apply (packed_denotes AtMost s d)|].
    split; [exact Hs|]. split; apply packed_is_word.
  - intros k p q dp dq qinv H k'. apply init_crt_key_code in H.
    pose proof (init_crt_key_shape s k p q dp dq qinv H) as Hs. fold k' in Hs.
    subst k'. rewrite (init_crt_key_valid s k _ _ _ _ _ H) in *.
    cbn [snd crt_n crt_p crt_q crt_dp crt_dq crt_qinv].
    destruct H as (Hp & Hq & Hdp & Hdq & Hqi).
    split; [now apply (packed_denotes Exact s p)|].
    split; [now apply (packed_denotes Exact s q)|].
    split; [now apply (packed_denotes AtMost s dp)|].
    split; [now apply (packed_denotes AtMost s dq)|].
    split; [now apply (packed_denotes AtMost s qinv)|].
    split; [exact Hs|].
    split; [apply value_words_is_word|].
    repeat split; apply packed_is_word.
Qed.

Lemma setup_stores_the_numbers_witness :
  words_value (key_n (snd (occ_rsa1024_init_key (blank_key RSA1024)
                 (x00 :: x00 :: top_bit_buffer 127) [x01; x00; x01])))
  = be_value (x00 :: x00 :: top_bit_buffer 127)
  /\ words_value (key_d (snd (occ_rsa1024_init_key (blank_key RSA1024)
                 (x00 :: x00 :: top_bit_buffer 127) [x01; x00; x01])))
     = PUB_EXP.
Proof.
  destruct (setup_stores_the_numbers RSA1024) as (_ & Hkey & _).
  destruct (Hkey (blank_key RSA1024) (x00 :: x00 :: top_bit_buffer 127)
              [x01; x00; x01]) as (Hn & Hd & _).
  - vm_compute. reflexivity.
  - split; [exact Hn | exact Hd].
Defined.

(** ** Keys formed as the header documents *)





(** ** The entry points against each other *)

(** X7: the two key sizes exclude each other: no buffer is accepted as a
    modulus by both the 1024 bit and the 2048 bit setup, whether public or
    plain secret; and a prime of the 2048 bit CRT setup is held to the rule
    of a 1024 bit modulus: the first prime of an accepted 2048 bit CRT key is
    accepted by the 1024 bit public key setup, which stores the same 32
    words. *)
Theorem key_sizes_exclusive :
  (forall (k1 : occ_rsa1024_pub_key) (k2 : occ_rsa2048_pub_key) (n : list byte),
     ~ (fst (occ_rsa1024_init_pub_key k1 n) = 0
        /\ fst (occ_rsa2048_init_pub_key k2 n) = 0))
  /\ (forall (k1 : occ_rsa1024_key) (k2 : occ_rsa2048_key) (n d d' : list byte),
     ~ (fst (occ_rsa1024_init_key k1 n d) = 0
        /\ fst (occ_rsa2048_init_key k2 n d') = 0))
  /\ (forall (k1 : occ_rsa1024_pub_key) (k2 : occ_rsa2048_crt_key)
            (p q dp dq qinv : list byte),
     fst (occ_rsa2048_init_crt_key k2 p q dp dq qinv) = 0 ->
     occ_rsa1024_init_pub_key k1 p
     = (0, PubKey (crt_p (snd (occ_rsa2048_init_crt_key k2 p q dp dq qinv))))).
Proof.
  split; [|split].
  - intros k1 k2 n [H1 H2].
    apply (init_pub_key_code RSA1024) in H1.
    apply (init_pub_key_code RSA2048) in H2.
    unfold pub_key_valid, obeys in *. cbn [key_bits] in *. lia.
  - intros k1 k2 n d d' [H1 H2].
    apply (init_key_code RSA1024) in H1.
    apply (init_key_code RSA2048) in H2.
    unfold key_valid, obeys in *. cbn [key_bits] in *. lia.
  - intros k1 k2 p q dp dq qinv H.
    apply (init_crt_key_code RSA2048) in H.
    unfold occ_rsa2048_init_crt_key.
    rewrite (init_crt_key_valid RSA2048 k2 _ _ _ _ _ H). cbn [snd crt_p].
    destruct H as (Hp & _).
    apply (init_pub_key_valid RSA1024 k1 p Hp).
Qed.

Lemma key_sizes_exclusive_witness :
  occ_rsa1024_init_pub_key (blank_pub_key RSA1024) (top_bit_buffer 127)
  = (0, PubKey (crt_p (snd (occ_rsa2048_init_crt_key (blank_crt_key RSA2048)
          (top_bit_buffer 127) (top_bit_buffer 127) [x01] [x01] [x01])))).
Proof.
  destruct key_sizes_exclusive as (_ & _ & H).
  apply H. vm_compute. reflexivity.
Defined.

(** ** The outcome depends on the numbers only *)






